(** * Vita3K: system-module load policy ([module/src/load_module.cpp])

    A shallow embedding of [is_lle_module] and [is_module_loaded] and the
    properties of the load-policy resolver and of the loaded-module tracker.

    Both C++ functions receive their state through a non-const reference
    ([EmuEnvState &], [KernelState &]); they are embedded as state-passing
    computations over that argument, so that "the call leaves its argument
    as it was" is a statement about the embedding and not a convention. *)

From stdpp Require Import base decidable option list strings gmap sorting.

(** ** Computations over a by-reference argument *)

Module Ref.

(** A call that receives an object of type [S] by reference and returns an
    [A]: it yields the returned value and the object as the call leaves it. *)
Definition M (S A : Type) : Type := S → A * S.

Definition ret {S A : Type} (a : A) : M S A :=
  λ s, (a, s).

Definition bind {S A B : Type} (m : M S A) (k : A → M S B) : M S B :=
  λ s, let '(a, s') := m s in k a s'.

(** Reading a member (or a path of members) of the referenced object. *)
Definition read {S A : Type} (member : S → A) : M S A :=
  λ s, (member s, s).

(** The value a call returns, and the object after the call. *)
Definition result {S A : Type} (m : M S A) (s : S) : A := fst (m s).
Definition after {S A : Type} (m : M S A) (s : S) : S := snd (m s).

End Ref.

Import Ref.

Notation "'let*' x ':=' m 'in' k" := (bind m (λ x, k))
  (at level 10, x name, m at level 100, k at level 200,
   format "'[v' 'let*'  x  ':='  m  'in' '/' k ']'").

(** ** [std::find] over a [std::vector] or an initializer list

    An iterator into a sequence is its position; [end()] is the length.
    [std_find l value] is the position of the first element equal to [value],
    and [end()] when there is none. *)

Fixpoint std_find {A : Type} `{EqDecision A} (l : list A) (value : A) : nat :=
  match l with
  | [] => 0
  | x :: l' => if decide (x = value) then 0 else S (std_find l' value)
  end.

(** [std::find(c.begin(), c.end(), value) != c.end()] *)
Definition find_ne_end {A : Type} `{EqDecision A} (c : list A) (value : A) : bool :=
  bool_decide (std_find c value ≠ length c).

(** ** Data *)

(** [SceSysmoduleModuleId] is a C enumeration; a value of that type is an
    integer, which need not be one of the enumerators. *)
Abbreviation SceSysmoduleModuleId := Z (only parsing).

(** The enumerators [is_lle_module] names. Their numeric values are declared
    in the platform SDK header, outside this module, and are taken as
    parameters. *)
Class SysmoduleIds : Type := {
  SCE_SYSMODULE_SAS : SceSysmoduleModuleId;
  SCE_SYSMODULE_PGF : SceSysmoduleModuleId;
  SCE_SYSMODULE_SYSTEM_GESTURE : SceSysmoduleModuleId;
  SCE_SYSMODULE_XML : SceSysmoduleModuleId;
  SCE_SYSMODULE_MP4 : SceSysmoduleModuleId;
  SCE_SYSMODULE_ATRAC : SceSysmoduleModuleId;
  SCE_SYSMODULE_AVPLAYER : SceSysmoduleModuleId;
  SCE_SYSMODULE_JSON : SceSysmoduleModuleId;
  SCE_SYSMODULE_HTTP : SceSysmoduleModuleId;
  SCE_SYSMODULE_SSL : SceSysmoduleModuleId;
  SCE_SYSMODULE_HTTPS : SceSysmoduleModuleId
}.

(** Modelled from the spec: the enumeration [ModulesMode] is declared in
    [config/state.h], which is not among the sources; the spec gives it three
    values, AUTOMATIC, MANUAL and a mixed one that is neither. *)
Inductive ModulesMode : Type :=
  | AUTOMATIC
  | MIXED
  | MANUAL.

#[global] Instance ModulesMode_eq_dec : EqDecision ModulesMode.
Proof. solve_decision. Defined.

(** The members of the emulator state that [is_lle_module] reads:
    [emuenv.cfg.current_config.modules_mode] and
    [emuenv.cfg.current_config.lle_modules]. *)
Record CurrentConfig : Type := {
  modules_mode : ModulesMode;
  lle_modules : list string
}.

Record Config : Type := {
  current_config : CurrentConfig
}.

Record EmuEnvState : Type := {
  cfg : Config
}.

(** The member of the kernel state that [is_module_loaded] reads. *)
Record KernelState : Type := {
  loaded_sysmodules : list SceSysmoduleModuleId
}.

(** An emulator state with the given mode and user list. *)
Definition emuenv_of (mode : ModulesMode) (lle : list string) : EmuEnvState :=
  {| cfg := {| current_config := {| modules_mode := mode; lle_modules := lle |} |} |}.

(** ** The loaded-module tracker *)

(** [bool is_module_loaded(KernelState &kernel, SceSysmoduleModuleId module_id)] *)
Definition is_module_loaded (kernel : KernelState) (module_id : SceSysmoduleModuleId)
  : bool * KernelState :=
  (let* loaded := read loaded_sysmodules in
   ret (find_ne_end loaded module_id)) kernel.

(** Modelled from the spec: the kernel's module loader is not among the
    sources; it "is responsible for inserting into LoadedModuleSet upon
    successful load and for defining session boundaries that reset it".
    Insertion appends to the vector, reset clears it. *)
Definition record_load (module_id : SceSysmoduleModuleId) (kernel : KernelState) : KernelState :=
  {| loaded_sysmodules := loaded_sysmodules kernel ++ [module_id] |}.

Definition reset_session (kernel : KernelState) : KernelState :=
  {| loaded_sysmodules := [] |}.

(** ** The module path registry *)

(** Modelled from the spec: the table [sysmodule_paths] is declared in
    [module/load_module.h], which is not among the sources. The spec's
    boundary contract for it is a lookup "paths_for(module_id) -> ordered
    sequence of strings, empty sequence if unknown": a finite table from
    module ids to path lists, read with the empty list as default. *)
Definition paths_for (registry : gmap Z (list string)) (module_id : SceSysmoduleModuleId)
  : list string :=
  default [] (registry !! module_id).

(** ** The load-policy resolver *)

Section LoadModule.

Context `{ids : SysmoduleIds}.

(** The table [sysmodule_paths], indexed by module id. *)
Variable sysmodule_paths : SceSysmoduleModuleId → list string.

(** The local initializer list of [is_lle_module]. *)
Definition auto_lle_modules : list SceSysmoduleModuleId :=
  [ SCE_SYSMODULE_SAS;
    SCE_SYSMODULE_PGF;
    SCE_SYSMODULE_SYSTEM_GESTURE;
    SCE_SYSMODULE_XML;
    SCE_SYSMODULE_MP4;
    SCE_SYSMODULE_ATRAC;
    SCE_SYSMODULE_AVPLAYER;
    SCE_SYSMODULE_JSON;
    SCE_SYSMODULE_HTTP;
    SCE_SYSMODULE_SSL;
    SCE_SYSMODULE_HTTPS ].

(** [for (auto path : paths) if (std::find(lle_modules...) != end) return true;]
    The value is [true] when the loop returns from the function, [false] when
    it runs to its end. *)
Fixpoint for_paths (paths : list string) : M EmuEnvState bool :=
  match paths with
  | [] => ret false
  | path :: rest =>
      let* lle := read (λ emuenv, lle_modules (current_config (cfg emuenv))) in
      if find_ne_end lle path then ret true else for_paths rest
  end.

(** [bool is_lle_module(SceSysmoduleModuleId module_id, EmuEnvState &emuenv)] *)
Definition is_lle_module (module_id : SceSysmoduleModuleId) : M EmuEnvState bool :=
  let paths := sysmodule_paths module_id in
  let have_paths := negb (bool_decide (paths = [])) in
  let manual_part : M EmuEnvState bool :=
    let* mode := read (λ emuenv, modules_mode (current_config (cfg emuenv))) in
    if bool_decide (mode ≠ AUTOMATIC) then for_paths paths
    else ret false in
  if have_paths then
    let* mode := read (λ emuenv, modules_mode (current_config (cfg emuenv))) in
    if bool_decide (mode ≠ MANUAL) then
      if find_ne_end auto_lle_modules module_id then ret true
      else manual_part
    else manual_part
  else ret false.

End LoadModule.

(** ** Vocabulary of the statements *)

(** The two members of the configuration the resolver reads. *)
Definition mode_of (emuenv : EmuEnvState) : ModulesMode :=
  modules_mode (current_config (cfg emuenv)).

Definition user_list_of (emuenv : EmuEnvState) : list string :=
  lle_modules (current_config (cfg emuenv)).

(** At least one of the module's paths appears in the user's list. *)
Definition some_path_listed (paths lle : list string) : Prop :=
  ∃ path, path ∈ paths ∧ path ∈ lle.

(** ** Examples *)

(** A concrete numbering of the enumerators, for the examples; the theorems
    hold for every numbering. *)
Definition sample_ids : SysmoduleIds := {|
  SCE_SYSMODULE_SAS := 0x0D;
  SCE_SYSMODULE_PGF := 0x0E;
  SCE_SYSMODULE_SYSTEM_GESTURE := 0x13;
  SCE_SYSMODULE_XML := 0x17;
  SCE_SYSMODULE_MP4 := 0x2D;
  SCE_SYSMODULE_ATRAC := 0x30;
  SCE_SYSMODULE_AVPLAYER := 0x39;
  SCE_SYSMODULE_JSON := 0x42;
  SCE_SYSMODULE_HTTP := 0x02;
  SCE_SYSMODULE_SSL := 0x03;
  SCE_SYSMODULE_HTTPS := 0x04
|}.

(** A registry with the SSL module and one module outside the automatic list
    (id 1); every other id is unknown to it. *)
Definition sample_registry : gmap Z (list string) :=
  <[ 0x03%Z := ["vs0/sys/external/libssl.suprx"] ]>
  (<[ 0x01%Z := ["vs0/sys/external/libfoo.suprx"] ]> ∅).

(** * The settings dialog's module list ([gui/src/settings_dialog.cpp]) *)

(** ** [std::sort]

    [std::sort(first, last, comp)] leaves a permutation of the range in which
    no element is [comp]-less than an earlier one; which permutation is the
    implementation's choice when [comp] leaves distinct elements unordered.
    It is embedded as an insertion sort. For the comparator of
    [get_modules_list] every such permutation is the same list
    ([std_sort_modules_unique] below), so the choice of algorithm is not
    visible there. *)

Fixpoint sort_insert {A : Type} (comp : A → A → bool) (x : A) (l : list A) : list A :=
  match l with
  | [] => [x]
  | y :: l' => if comp x y then x :: y :: l' else y :: sort_insert comp x l'
  end.

Definition std_sort {A : Type} (comp : A → A → bool) (l : list A) : list A :=
  foldr (sort_insert comp) [] l.

(** No element of [l] is [comp]-less than an earlier one. *)
Definition sorted_by {A : Type} (comp : A → A → bool) (l : list A) : Prop :=
  ∀ i j x y, i < j → l !! i = Some x → l !! j = Some y → comp y x = false.

(** How many times [name] occurs in a list of names. *)
Definition occurrences (name : string) (l : list string) : nat :=
  length (filter (λ x, x = name) l).

Module gui.

(** The members the module list reads and writes: [host.cfg.lle_modules],
    [host.pref_path] and [gui.modules], a vector of (name, selected) pairs. *)
Record Config : Type := {
  lle_modules : list string
}.

Record HostState : Type := {
  cfg : Config;
  pref_path : string
}.

Record GuiState : Type := {
  modules : list (string * bool)
}.

(** The operations on [fs::path] the function uses. They belong to the
    filesystem library and are taken as parameters: construction from a
    string, [operator/], [extension()] (compared with a string) and
    [filename().replace_extension().string()]. *)
Class Paths : Type := {
  path : Type;
  path_of_string : string → path;
  path_div : path → string → path;
  extension : path → string;
  filename_stem : path → string
}.

(** What is on disk when the function runs: the answers of [fs::exists],
    [fs::is_empty] and the entries [fs::recursive_directory_iterator] yields,
    in the order it yields them. An error raised by the filesystem library
    is outside this model. *)
Record FileSystem `{Paths} : Type := {
  fs_exists : path → bool;
  fs_is_empty : path → bool;
  recursive_directory_iterator : path → list path
}.

(** The lambda handed to [std::sort]:
    [if (ma.second == mb.second) return ma.first < mb.first; return ma.second;] *)
Definition modules_less (ma mb : string * bool) : bool :=
  if bool_decide (ma.2 = mb.2) then String.ltb ma.1 mb.1 else ma.2.

Section SettingsDialog.

Context `{Paths}.

(** The body of the loop over the directory entries. *)
Definition push_suprx (modules : list (string * bool)) (module : path)
  : list (string * bool) :=
  if bool_decide (extension module = ".suprx")
  then modules ++ [(filename_stem module, false)]
  else modules.

(** [for (auto &m : gui.modules) m.second = std::find(lle_modules...) != end;] *)
Definition mark_modules (lle : list string) (modules : list (string * bool))
  : list (string * bool) :=
  (λ m, (m.1, find_ne_end lle m.1)) <$> modules.

(** [void get_modules_list(GuiState &gui, HostState &host)] *)
Definition get_modules_list (fs : FileSystem) (gui : GuiState) (host : HostState)
  : GuiState * HostState :=
  let modules : list (string * bool) := [] in
  let modules_path := path_div (path_of_string (pref_path host)) "vs0/sys/external/" in
  if fs_exists fs modules_path && negb (fs_is_empty fs modules_path) then
    let modules := foldl push_suprx modules (recursive_directory_iterator fs modules_path) in
    let modules := mark_modules (lle_modules (cfg host)) modules in
    let modules := std_sort modules_less modules in
    ({| modules := modules |}, host)
  else ({| modules := modules |}, host).

End SettingsDialog.

(** What the user interface answers during one frame: [PassFilter] of the
    search bar for a name, and for the [i]-th entry [ImGui::Selectable(label,
    &selected)], which returns whether the entry was clicked and may write
    the flag it was given. *)
Record ListBoxUi : Type := {
  PassFilter : string → bool;
  Selectable : nat → string → bool → bool * bool
}.

(** The loop of [draw_settings_dialog] over [gui.modules], from the entry of
    index [i] on; it yields the entries and [host.cfg.lle_modules] as the
    loop leaves them. *)
Fixpoint list_box (ui : ListBoxUi) (i : nat) (modules : list (string * bool))
    (lle : list string) : list (string * bool) * list string :=
  match modules with
  | [] => ([], lle)
  | m :: rest =>
      let module := std_find lle m.1 in
      let module_existed := bool_decide (module ≠ length lle) in
      if negb (PassFilter ui m.1) then
        let '(rest', lle') := list_box ui (S i) rest lle in
        (m :: rest', lle')
      else
        let '(clicked, second) := Selectable ui i m.1 m.2 in
        let lle :=
          if clicked then
            if module_existed then delete module lle else lle ++ [m.1]
          else lle in
        let '(rest', lle') := list_box ui (S i) rest lle in
        ((m.1, second) :: rest', lle')
  end.

(** The list box of the Core tab, when [ImGui::ListBoxHeader] opens it. *)
Definition modules_list_box (ui : ListBoxUi) (gui : GuiState) (host : HostState)
  : GuiState * HostState :=
  let '(modules', lle') := list_box ui 0 (modules gui) (lle_modules (cfg host)) in
  ({| modules := modules' |},
   {| cfg := {| lle_modules := lle' |}; pref_path := pref_path host |}).

(** Every entry's flag says whether its name is in the user's list. *)
Definition marks_agree (modules : list (string * bool)) (lle : list string) : Prop :=
  ∀ m, m ∈ modules → (m.2 = true ↔ m.1 ∈ lle).

(** A sample filesystem library: a path is a pair of a stem and an
    extension. *)
Definition sample_paths : Paths := {|
  path := string * string;
  path_of_string s := (s, "");
  path_div p s := (String.app p.1 s, p.2);
  extension p := p.2;
  filename_stem p := p.1
|}.

Definition sample_fs (entries : list (@path sample_paths)) : @FileSystem sample_paths := {|
  fs_exists _ := true;
  fs_is_empty _ := false;
  recursive_directory_iterator _ := entries
|}.

Definition sample_entries : list (string * string) :=
  [("libssl", ".suprx"); ("readme", ".txt"); ("libhttp", ".suprx");
   ("libatrac", ".suprx"); ("libface", ".suprx")].

Definition sample_host : HostState :=
  {| cfg := {| lle_modules := ["libhttp"; "libface"] |}; pref_path := "/vita/" |}.

(** A frame in which only the entry of index [k] is clicked, every name
    passes the search bar, and a click flips the flag. *)
Definition click_only (k : nat) : ListBoxUi := {|
  PassFilter _ := true;
  Selectable i _ selected := if bool_decide (i = k) then (true, negb selected) else (false, selected)
|}.

End gui.

(** * Properties *)

(** ** [std::find] *)

Lemma std_find_le {A : Type} `{EqDecision A} (l : list A) (value : A) :
  std_find l value ≤ length l.
Proof.
  induction l as [|x l IH]; simpl; [lia|].
  destruct (decide (x = value)); lia.
Qed.

(** The iterator [std::find] returns is [end()] exactly when no element
    equals the value. *)
Lemma std_find_end {A : Type} `{EqDecision A} (l : list A) (value : A) :
  std_find l value = length l ↔ value ∉ l.
Proof.
  induction l as [|x l IH]; simpl.
  - split; [intros _; apply not_elem_of_nil | done].
  - rewrite not_elem_of_cons. destruct (decide (x = value)) as [->|Hne].
    + split; [discriminate | intros [Hv _]; by destruct Hv].
    + split.
      * intros Heq. split; [congruence|]. apply IH. lia.
      * intros [_ Hnot]. f_equal. by apply IH.
Qed.

(** When it is not [end()], it points at the first occurrence. *)
Lemma std_find_lookup {A : Type} `{EqDecision A} (l : list A) (value : A) :
  value ∈ l → l !! std_find l value = Some value.
Proof.
  induction l as [|x l IH]; simpl; intros Hin.
  - by apply elem_of_nil in Hin.
  - destruct (decide (x = value)) as [->|Hne]; [done|].
    simpl. apply IH. apply elem_of_cons in Hin as [->|Hin]; done.
Qed.

Lemma find_ne_end_true {A : Type} `{EqDecision A} (c : list A) (value : A) :
  find_ne_end c value = true ↔ value ∈ c.
Proof.
  unfold find_ne_end. rewrite bool_decide_eq_true, std_find_end.
  split; [apply dec_stable | by intros ? ?].
Qed.

Lemma find_ne_end_false {A : Type} `{EqDecision A} (c : list A) (value : A) :
  find_ne_end c value = false ↔ value ∉ c.
Proof.
  rewrite <- find_ne_end_true. destruct (find_ne_end c value); intuition congruence.
Qed.

(** ** The resolver *)

Section LoadModuleProperties.

Context `{ids : SysmoduleIds}.
Variable sysmodule_paths : SceSysmoduleModuleId → list string.

(** The loop over the paths only reads the emulator state. *)
Lemma for_paths_after (paths : list string) (emuenv : EmuEnvState) :
  after (for_paths paths) emuenv = emuenv.
Proof.
  unfold after. induction paths as [|path rest IH]; simpl; [done|].
  unfold bind, read. simpl.
  destruct (find_ne_end _ path); [done | exact IH].
Qed.

(** It returns from the function with [true] exactly when some path of the
    module is in the user's list. *)
Lemma for_paths_result (paths : list string) (emuenv : EmuEnvState) :
  result (for_paths paths) emuenv = true
  ↔ some_path_listed paths (user_list_of emuenv).
Proof.
  unfold result, some_path_listed, user_list_of.
  induction paths as [|path rest IH]; simpl.
  - split; [discriminate | intros (p & Hp & _); by apply elem_of_nil in Hp].
  - unfold bind, read. simpl.
    destruct (find_ne_end _ path) eqn:Hfind; simpl.
    + apply find_ne_end_true in Hfind. split; [|done].
      intros _. exists path. split; [left | done].
    + apply find_ne_end_false in Hfind. rewrite IH. split.
      * intros (p & Hp & Hl). exists p. split; [by right | done].
      * intros (p & Hp & Hl). apply elem_of_cons in Hp as [->|Hp]; [done|].
        by exists p.
Qed.

Lemma for_paths_run (paths : list string) (emuenv : EmuEnvState) :
  for_paths paths emuenv = (result (for_paths paths) emuenv, emuenv).
Proof.
  rewrite <- (for_paths_after paths emuenv) at 3.
  unfold result, after. by destruct (for_paths paths emuenv).
Qed.

(** The call leaves the emulator state as it was. *)
Lemma is_lle_module_after (module_id : SceSysmoduleModuleId) (emuenv : EmuEnvState) :
  after (is_lle_module sysmodule_paths module_id) emuenv = emuenv.
Proof.
  unfold after, is_lle_module, bind, read, ret. simpl.
  repeat case_match; simpl; try done; apply for_paths_after.
Qed.

Lemma is_lle_module_run (module_id : SceSysmoduleModuleId) (emuenv : EmuEnvState) :
  is_lle_module sysmodule_paths module_id emuenv
  = (result (is_lle_module sysmodule_paths module_id) emuenv, emuenv).
Proof.
  rewrite <- (is_lle_module_after module_id emuenv) at 3.
  unfold result, after. by destruct (is_lle_module _ _ emuenv).
Qed.

(** What the call returns, in terms of the two gated checks. *)
Lemma is_lle_module_result (module_id : SceSysmoduleModuleId) (emuenv : EmuEnvState) :
  result (is_lle_module sysmodule_paths module_id) emuenv = true
  ↔ sysmodule_paths module_id ≠ []
    ∧ ((mode_of emuenv ≠ MANUAL ∧ module_id ∈ auto_lle_modules)
       ∨ (mode_of emuenv ≠ AUTOMATIC
          ∧ some_path_listed (sysmodule_paths module_id) (user_list_of emuenv))).
Proof.
  rewrite <- for_paths_result, <- find_ne_end_true.
  destruct emuenv as [[[mode lle]]].
  unfold result, is_lle_module, bind, read, ret, mode_of. simpl.
  destruct (decide (sysmodule_paths module_id = [])) as [Hempty|Hpaths].
  { rewrite bool_decide_eq_true_2 by done. simpl.
    split; [discriminate | by intros [? _]]. }
  rewrite bool_decide_eq_false_2 by done. simpl.
  destruct mode, (find_ne_end auto_lle_modules module_id); simpl;
    intuition congruence.
Qed.

(** ** Claims about [is_lle_module] *)

(** C1. A module whose path list is empty is never LLE: whatever the mode and
    the user's list, and also when the module is in the automatic list,
    [is_lle_module] returns [false]. *)
Theorem is_lle_module_no_paths (module_id : SceSysmoduleModuleId) (emuenv : EmuEnvState) :
  sysmodule_paths module_id = [] →
  result (is_lle_module sysmodule_paths module_id) emuenv = false.
Proof.
  intros Hempty. unfold result, is_lle_module.
  rewrite Hempty. by rewrite bool_decide_eq_true_2.
Qed.

(** C2. A module of the automatic list with a non-empty path list is LLE
    whenever the mode is not MANUAL, whatever the user's list holds. *)
Theorem is_lle_module_auto (module_id : SceSysmoduleModuleId) (emuenv : EmuEnvState) :
  module_id ∈ auto_lle_modules →
  sysmodule_paths module_id ≠ [] →
  mode_of emuenv ≠ MANUAL →
  result (is_lle_module sysmodule_paths module_id) emuenv = true.
Proof.
  intros Hauto Hpaths Hmode. apply is_lle_module_result.
  split; [exact Hpaths | left; by split].
Qed.

(** C3. A module outside the automatic list with a non-empty path list is LLE
    if and only if the mode is not AUTOMATIC and one of its paths is in the
    user's list. *)
Theorem is_lle_module_not_auto (module_id : SceSysmoduleModuleId) (emuenv : EmuEnvState) :
  module_id ∉ auto_lle_modules →
  sysmodule_paths module_id ≠ [] →
  result (is_lle_module sysmodule_paths module_id) emuenv = true
  ↔ mode_of emuenv ≠ AUTOMATIC
    ∧ some_path_listed (sysmodule_paths module_id) (user_list_of emuenv).
Proof.
  intros Hauto Hpaths. rewrite is_lle_module_result. split.
  - intros [_ [[_ Hin] | Hmanual]]; [by destruct Hauto | exact Hmanual].
  - intros Hmanual. split; [exact Hpaths | by right].
Qed.

(** C4. In the mixed mode (neither AUTOMATIC nor MANUAL) a module with a
    non-empty path list is LLE if and only if it is in the automatic list or
    one of its paths is in the user's list. *)
Theorem is_lle_module_mixed (module_id : SceSysmoduleModuleId) (emuenv : EmuEnvState) :
  mode_of emuenv ≠ AUTOMATIC →
  mode_of emuenv ≠ MANUAL →
  sysmodule_paths module_id ≠ [] →
  result (is_lle_module sysmodule_paths module_id) emuenv = true
  ↔ module_id ∈ auto_lle_modules
    ∨ some_path_listed (sysmodule_paths module_id) (user_list_of emuenv).
Proof.
  intros Hna Hnm Hpaths. rewrite is_lle_module_result. split.
  - intros [_ [[_ Hin] | [_ Hlisted]]]; [by left | by right].
  - intros [Hin | Hlisted]; (split; [exact Hpaths|]); [left | right]; by split.
Qed.

(** C7. The automatic list is a constant of the function, the same for every
    configuration: it has eleven entries, a module id is in it exactly when it
    is one of SAS, PGF, SYSTEM_GESTURE, XML, MP4, ATRAC, AVPLAYER, JSON, HTTP,
    SSL and HTTPS, and in AUTOMATIC mode these are exactly the modules with
    paths that are LLE, whatever the user's list holds. *)
Theorem auto_lle_modules_exact (module_id : SceSysmoduleModuleId) :
  let eleven :=
    module_id = SCE_SYSMODULE_SAS ∨ module_id = SCE_SYSMODULE_PGF
    ∨ module_id = SCE_SYSMODULE_SYSTEM_GESTURE ∨ module_id = SCE_SYSMODULE_XML
    ∨ module_id = SCE_SYSMODULE_MP4 ∨ module_id = SCE_SYSMODULE_ATRAC
    ∨ module_id = SCE_SYSMODULE_AVPLAYER ∨ module_id = SCE_SYSMODULE_JSON
    ∨ module_id = SCE_SYSMODULE_HTTP ∨ module_id = SCE_SYSMODULE_SSL
    ∨ module_id = SCE_SYSMODULE_HTTPS in
  length auto_lle_modules = 11
  ∧ (module_id ∈ auto_lle_modules ↔ eleven)
  ∧ (∀ emuenv : EmuEnvState,
       mode_of emuenv = AUTOMATIC →
       sysmodule_paths module_id ≠ [] →
       result (is_lle_module sysmodule_paths module_id) emuenv = true ↔ eleven).
Proof.
  intros eleven.
  assert (Hmem : module_id ∈ auto_lle_modules ↔ eleven).
  { unfold auto_lle_modules, eleven.
    rewrite !elem_of_cons, elem_of_nil. tauto. }
  split; [reflexivity|]. split; [exact Hmem|].
  intros emuenv Hmode Hpaths. rewrite is_lle_module_result, Hmode, <- Hmem.
  split.
  - intros [_ [[_ Hin] | [Hne _]]]; [exact Hin | by destruct Hne].
  - intros Hin. split; [exact Hpaths | left; by split].
Qed.

(** C9. In MANUAL mode a module of the automatic list with a non-empty path
    list is LLE if and only if one of its paths is in the user's list: being
    in the automatic list gives nothing, the user's list still selects it. *)
Theorem is_lle_module_auto_manual (module_id : SceSysmoduleModuleId) (emuenv : EmuEnvState) :
  module_id ∈ auto_lle_modules →
  sysmodule_paths module_id ≠ [] →
  mode_of emuenv = MANUAL →
  result (is_lle_module sysmodule_paths module_id) emuenv = true
  ↔ some_path_listed (sysmodule_paths module_id) (user_list_of emuenv).
Proof.
  intros _ Hpaths Hmode. rewrite is_lle_module_result, Hmode. split.
  - intros [_ [[Hne _] | [_ Hlisted]]]; [by destruct Hne | exact Hlisted].
  - intros Hlisted. split; [exact Hpaths | right; by split].
Qed.

(** Listing more paths keeps every listed path listed. *)
Lemma some_path_listed_mono (paths lle1 lle2 : list string) :
  lle1 ⊆ lle2 → some_path_listed paths lle1 → some_path_listed paths lle2.
Proof.
  intros Hsub (path & Hpath & Hl). exists path. split; [exact Hpath | by apply Hsub].
Qed.

(** C10. [is_lle_module] is monotone in the user's list: with the same mode,
    if every entry of one list is an entry of a second, a [true] for the first
    is a [true] for the second; and if the two lists have the same entries (in
    any order, any number of times) the results are equal. *)
Theorem is_lle_module_monotone (module_id : SceSysmoduleModuleId)
    (emuenv1 emuenv2 : EmuEnvState) :
  mode_of emuenv1 = mode_of emuenv2 →
  user_list_of emuenv1 ⊆ user_list_of emuenv2 →
  (result (is_lle_module sysmodule_paths module_id) emuenv1 = true →
   result (is_lle_module sysmodule_paths module_id) emuenv2 = true)
  ∧ (user_list_of emuenv2 ⊆ user_list_of emuenv1 →
     result (is_lle_module sysmodule_paths module_id) emuenv1
     = result (is_lle_module sysmodule_paths module_id) emuenv2).
Proof.
  intros Hmode Hsub.
  assert (Hup : ∀ e1 e2, mode_of e1 = mode_of e2 →
                 user_list_of e1 ⊆ user_list_of e2 →
                 result (is_lle_module sysmodule_paths module_id) e1 = true →
                 result (is_lle_module sysmodule_paths module_id) e2 = true).
  { intros e1 e2 Hm Hs. rewrite !is_lle_module_result, Hm.
    intros [Hpaths [Hauto | [Hna Hlisted]]]; (split; [exact Hpaths|]).
    - by left.
    - right. split; [exact Hna | by eapply some_path_listed_mono]. }
  split; [by apply Hup|].
  intros Hsup.
  destruct (result (is_lle_module sysmodule_paths module_id) emuenv1) eqn:H1.
  - symmetry. by apply (Hup emuenv1 emuenv2).
  - destruct (result (is_lle_module sysmodule_paths module_id) emuenv2) eqn:H2; [|done].
    rewrite <- H1. by apply (Hup emuenv2 emuenv1).
Qed.

End LoadModuleProperties.

(** ** Claims about [is_module_loaded] *)

(** C6. [is_module_loaded] returns [true] exactly when the module id is in
    [loaded_sysmodules], and leaves the kernel state as it was. So it returns
    [false] on the empty set, [true] right after the module id is inserted,
    and [false] again once the set is cleared. *)
Theorem is_module_loaded_spec (kernel : KernelState) (module_id : SceSysmoduleModuleId) :
  ((is_module_loaded kernel module_id).1 = true ↔ module_id ∈ loaded_sysmodules kernel)
  ∧ (is_module_loaded kernel module_id).2 = kernel
  ∧ is_module_loaded {| loaded_sysmodules := [] |} module_id
    = (false, {| loaded_sysmodules := [] |})
  ∧ is_module_loaded (record_load module_id kernel) module_id
    = (true, record_load module_id kernel)
  ∧ is_module_loaded (reset_session kernel) module_id
    = (false, reset_session kernel).
Proof.
  unfold is_module_loaded, bind, read, ret. simpl.
  split; [apply find_ne_end_true|]. split; [reflexivity|].
  split; [reflexivity|]. split; [|reflexivity].
  f_equal. apply find_ne_end_true, elem_of_app. right. apply list_elem_of_singleton.
  reflexivity.
Qed.

(** ** Determinism *)

(** C8. Both queries are deterministic and change nothing: a second call
    after a first returns the same boolean, and the state after each call is
    the state before it. The boolean depends on the registry only through the
    entry of [module_id], on the configuration only through the mode and the
    user's list, and on the kernel only through [loaded_sysmodules]. *)
Theorem queries_deterministic `{ids : SysmoduleIds}
    (sysmodule_paths : SceSysmoduleModuleId → list string)
    (module_id : SceSysmoduleModuleId) (emuenv : EmuEnvState) (kernel : KernelState) :
  (let '(b1, emuenv1) := is_lle_module sysmodule_paths module_id emuenv in
   let '(b2, emuenv2) := is_lle_module sysmodule_paths module_id emuenv1 in
   b1 = b2 ∧ emuenv1 = emuenv ∧ emuenv2 = emuenv)
  ∧ (let '(b1, kernel1) := is_module_loaded kernel module_id in
     let '(b2, kernel2) := is_module_loaded kernel1 module_id in
     b1 = b2 ∧ kernel1 = kernel ∧ kernel2 = kernel)
  ∧ (∀ (sysmodule_paths' : SceSysmoduleModuleId → list string) (emuenv' : EmuEnvState),
       sysmodule_paths' module_id = sysmodule_paths module_id →
       mode_of emuenv' = mode_of emuenv →
       user_list_of emuenv' = user_list_of emuenv →
       is_lle_module sysmodule_paths' module_id emuenv'
       = is_lle_module sysmodule_paths module_id emuenv)
  ∧ (∀ kernel' : KernelState,
       loaded_sysmodules kernel' = loaded_sysmodules kernel →
       is_module_loaded kernel' module_id = is_module_loaded kernel module_id).
Proof.
  split; [|split; [|split]].
  - rewrite is_lle_module_run, is_lle_module_run. done.
  - unfold is_module_loaded, bind, read, ret. simpl. done.
  - intros paths' [[[mode' lle']]] Hpaths Hmode Hlist.
    destruct emuenv as [[[mode lle]]].
    unfold mode_of, user_list_of in Hmode, Hlist. simpl in Hmode, Hlist.
    subst mode' lle'. unfold is_lle_module. by rewrite Hpaths.
  - intros [loaded'] Hloaded. destruct kernel as [loaded].
    simpl in Hloaded. by subst loaded'.
Qed.

(** * The theorems at concrete inputs *)

(** The SSL module (in the automatic list) with no known path, AUTOMATIC
    mode: not LLE. *)
Lemma is_lle_module_no_paths_witness :
  3%Z ∈ auto_lle_modules (ids:=sample_ids)
  ∧ paths_for ∅ 3 = []
  ∧ result (is_lle_module (ids:=sample_ids) (paths_for ∅) 3)
      (emuenv_of AUTOMATIC ["vs0/sys/external/libssl.suprx"]) = false.
Proof.
  split; [by apply find_ne_end_true|]. split; [reflexivity|].
  by apply (is_lle_module_no_paths (paths_for ∅) 3).
Defined.

(** The SSL module with its path, AUTOMATIC mode, empty user list: LLE. *)
Lemma is_lle_module_auto_witness :
  result (is_lle_module (ids:=sample_ids) (paths_for sample_registry) 3)
    (emuenv_of AUTOMATIC []) = true.
Proof.
  apply (is_lle_module_auto (paths_for sample_registry) 3 (emuenv_of AUTOMATIC [])).
  - by apply find_ne_end_true.
  - by vm_compute.
  - by vm_compute.
Defined.

(** A module outside the automatic list whose path the user listed: in
    MANUAL mode the right-hand side holds, so the module is LLE. *)
Lemma is_lle_module_not_auto_witness :
  result (is_lle_module (ids:=sample_ids) (paths_for sample_registry) 1)
    (emuenv_of MANUAL ["vs0/sys/external/libfoo.suprx"]) = true.
Proof.
  apply (is_lle_module_not_auto (paths_for sample_registry) 1
           (emuenv_of MANUAL ["vs0/sys/external/libfoo.suprx"])).
  - by apply find_ne_end_false.
  - by vm_compute.
  - split; [by vm_compute|].
    exists "vs0/sys/external/libfoo.suprx". split; by apply find_ne_end_true.
Defined.

(** The same module and list in the mixed mode. *)
Lemma is_lle_module_mixed_witness :
  result (is_lle_module (ids:=sample_ids) (paths_for sample_registry) 1)
    (emuenv_of MIXED ["vs0/sys/external/libfoo.suprx"]) = true.
Proof.
  apply (is_lle_module_mixed (paths_for sample_registry) 1
           (emuenv_of MIXED ["vs0/sys/external/libfoo.suprx"])).
  - by vm_compute.
  - by vm_compute.
  - by vm_compute.
  - right. exists "vs0/sys/external/libfoo.suprx". split; by apply find_ne_end_true.
Defined.

(** The SSL module in AUTOMATIC mode, whatever the user listed. *)
Lemma auto_lle_modules_exact_witness :
  result (is_lle_module (ids:=sample_ids) (paths_for sample_registry) 3)
    (emuenv_of AUTOMATIC ["vs0/sys/external/libfoo.suprx"]) = true.
Proof.
  apply (proj2 (proj2 (auto_lle_modules_exact (ids:=sample_ids)
                         (paths_for sample_registry) 3))).
  - reflexivity.
  - by vm_compute.
  - do 9 right. left. reflexivity.
Defined.

(** Two configurations with the same mode and the same user list. *)
Lemma queries_deterministic_witness :
  is_lle_module (ids:=sample_ids) (paths_for sample_registry) 1
    (emuenv_of MANUAL ["vs0/sys/external/libfoo.suprx"])
  = is_lle_module (ids:=sample_ids) (paths_for (delete 3%Z sample_registry)) 1
      (emuenv_of MANUAL ["vs0/sys/external/libfoo.suprx"]).
Proof.
  apply (proj1 (proj2 (proj2 (queries_deterministic (ids:=sample_ids)
           (paths_for (delete 3%Z sample_registry)) 1
           (emuenv_of MANUAL ["vs0/sys/external/libfoo.suprx"])
           {| loaded_sysmodules := [] |})))).
  - reflexivity.
  - reflexivity.
  - reflexivity.
Defined.

(** The SSL module in MANUAL mode: not LLE with an empty list, LLE once the
    user lists its path. *)
Lemma is_lle_module_auto_manual_witness :
  result (is_lle_module (ids:=sample_ids) (paths_for sample_registry) 3)
    (emuenv_of MANUAL ["vs0/sys/external/libssl.suprx"]) = true.
Proof.
  apply (is_lle_module_auto_manual (paths_for sample_registry) 3
           (emuenv_of MANUAL ["vs0/sys/external/libssl.suprx"])).
  - by apply find_ne_end_true.
  - by vm_compute.
  - reflexivity.
  - exists "vs0/sys/external/libssl.suprx". split; by apply find_ne_end_true.
Defined.

(** Adding an entry to the user's list. *)
Lemma is_lle_module_monotone_witness :
  result (is_lle_module (ids:=sample_ids) (paths_for sample_registry) 1)
    (emuenv_of MANUAL ["vs0/sys/external/libbar.suprx"; "vs0/sys/external/libfoo.suprx"])
  = true.
Proof.
  apply (proj1 (is_lle_module_monotone (paths_for sample_registry) 1
           (emuenv_of MANUAL ["vs0/sys/external/libfoo.suprx"])
           (emuenv_of MANUAL ["vs0/sys/external/libbar.suprx";
                              "vs0/sys/external/libfoo.suprx"])
           eq_refl (λ path Hin, list_elem_of_further path _ _ Hin))).
  reflexivity.
Defined.

(** * Scenarios *)

(** The runs below evaluate the embedding itself. *)

Example scenario_ssl_automatic :
  is_lle_module (ids:=sample_ids) (paths_for sample_registry) (@SCE_SYSMODULE_SSL sample_ids)
    (emuenv_of AUTOMATIC [])
  = (true, emuenv_of AUTOMATIC []).
Proof. reflexivity. Qed.

Example scenario_listed_manual :
  is_lle_module (ids:=sample_ids) (paths_for sample_registry) 1
    (emuenv_of MANUAL ["vs0/sys/external/libfoo.suprx"])
  = (true, emuenv_of MANUAL ["vs0/sys/external/libfoo.suprx"]).
Proof. reflexivity. Qed.

Example scenario_listed_automatic :
  is_lle_module (ids:=sample_ids) (paths_for sample_registry) 1
    (emuenv_of AUTOMATIC ["vs0/sys/external/libfoo.suprx"])
  = (false, emuenv_of AUTOMATIC ["vs0/sys/external/libfoo.suprx"]).
Proof. reflexivity. Qed.

Example scenario_ssl_manual_unlisted :
  is_lle_module (ids:=sample_ids) (paths_for sample_registry) (@SCE_SYSMODULE_SSL sample_ids)
    (emuenv_of MANUAL ["vs0/sys/external/libfoo.suprx"])
  = (false, emuenv_of MANUAL ["vs0/sys/external/libfoo.suprx"]).
Proof. reflexivity. Qed.

Example scenario_no_paths :
  is_lle_module (ids:=sample_ids) (paths_for ∅) (@SCE_SYSMODULE_SSL sample_ids)
    (emuenv_of AUTOMATIC ["vs0/sys/external/libssl.suprx"])
  = (false, emuenv_of AUTOMATIC ["vs0/sys/external/libssl.suprx"]).
Proof. reflexivity. Qed.

Example scenario_std_find :
  std_find [5; 7; 7; 9]%Z 7%Z = 1 ∧ std_find [5; 7; 7; 9]%Z 4%Z = 4.
Proof. split; reflexivity. Qed.

Example scenario_loaded :
  let kernel := {| loaded_sysmodules := [] |} in
  (is_module_loaded kernel 3).1 = false
  ∧ (is_module_loaded (record_load 3 kernel) 3).1 = true
  ∧ (is_module_loaded (record_load 3 kernel) 4).1 = false
  ∧ (is_module_loaded (reset_session (record_load 3 kernel)) 3).1 = false.
Proof. repeat split; reflexivity. Qed.

(** * Properties of the settings dialog's module list *)

(** ** [std::sort] *)

Lemma sort_insert_perm {A : Type} (comp : A → A → bool) (x : A) (l : list A) :
  sort_insert comp x l ≡ₚ x :: l.
Proof.
  induction l as [|y l IH]; simpl; [done|].
  destruct (comp x y); [done|]. rewrite IH. apply Permutation_swap.
Qed.

(** Sorting rearranges: nothing is lost, added or repeated. *)
Lemma std_sort_perm {A : Type} (comp : A → A → bool) (l : list A) :
  std_sort comp l ≡ₚ l.
Proof.
  induction l as [|x l IH]; simpl; [done|].
  rewrite sort_insert_perm. by rewrite IH.
Qed.

(** The positional reading of sortedness and the inductive one agree. *)
Lemma sorted_by_StronglySorted {A : Type} (comp : A → A → bool) (l : list A) :
  sorted_by comp l ↔ StronglySorted (λ a b, comp b a = false) l.
Proof.
  unfold sorted_by. induction l as [|x l IH].
  - split; [constructor | intros _ i j a b _ Hi; by destruct i].
  - rewrite StronglySorted_cons, <- IH. split.
    + intros Hs. split.
      * rewrite Forall_forall. intros y Hy.
        apply list_elem_of_lookup in Hy as [j Hj].
        by apply (Hs 0 (S j) x y); [lia|..].
      * intros i j a b Hij Hi Hj. by apply (Hs (S i) (S j) a b); [lia|..].
    + intros [Hall Hs] i j a b Hij Hi Hj.
      destruct j as [|j]; [lia|]. simpl in Hj.
      destruct i as [|i]; simpl in Hi.
      * injection Hi as <-. rewrite Forall_forall in Hall.
        apply Hall. by eapply list_elem_of_lookup_2.
      * by apply (Hs i j a b); [lia|..].
Qed.

Section SortInsert.

Context {A : Type} (comp : A → A → bool).

(** What [std::sort] asks of its comparator and the proof of sortedness
    uses: it never orders two elements both ways, and "not less" chains. *)
Hypothesis comp_asym : ∀ x y, comp x y = true → comp y x = false.
Hypothesis comp_trans : ∀ x y z, comp y x = false → comp z y = false → comp z x = false.

Lemma sort_insert_sorted (x : A) (l : list A) :
  StronglySorted (λ a b, comp b a = false) l →
  StronglySorted (λ a b, comp b a = false) (sort_insert comp x l).
Proof.
  induction l as [|y l IH]; simpl; intros Hl.
  - repeat constructor.
  - apply StronglySorted_cons in Hl as [Hy Hl].
    destruct (comp x y) eqn:Hxy.
    + apply StronglySorted_cons. split.
      * constructor; [by apply comp_asym|].
        eapply Forall_impl; [exact Hy|]. intros z Hz. simpl in Hz.
        eapply comp_trans; [|exact Hz]. by apply comp_asym.
      * by apply StronglySorted_cons.
    + apply StronglySorted_cons. split; [|by apply IH].
      rewrite sort_insert_perm. by constructor.
Qed.

Lemma std_sort_sorted (l : list A) :
  StronglySorted (λ a b, comp b a = false) (std_sort comp l).
Proof.
  induction l as [|x l IH]; simpl; [constructor|].
  by apply sort_insert_sorted.
Qed.

End SortInsert.

(** ** The comparator of [get_modules_list] *)

Lemma string_ltb_false (s1 s2 : string) :
  String.ltb s2 s1 = false ↔ String.le s1 s2.
Proof.
  unfold String.le, String.leb, String.ltb.
  rewrite (String.compare_antisym s1 s2).
  destruct (String.compare s2 s1); simpl; intuition (done || congruence).
Qed.

Lemma string_ltb_true (s1 s2 : string) :
  String.ltb s1 s2 = true ↔ String.le s1 s2 ∧ s1 ≠ s2.
Proof.
  split.
  - intros Hlt. split.
    + apply string_ltb_false. destruct (String.ltb s2 s1) eqn:Hgt; [|done].
      unfold String.ltb in *. rewrite (String.compare_antisym s1 s2) in Hlt.
      destruct (String.compare s2 s1); simpl in *; congruence.
    + intros ->. unfold String.ltb in Hlt.
      assert (String.le s2 s2) as Hrefl by reflexivity.
      apply string_ltb_false in Hrefl. unfold String.ltb in Hrefl. congruence.
  - intros [Hle Hne]. destruct (String.ltb s1 s2) eqn:Hlt; [done|].
    apply string_ltb_false in Hlt. destruct Hne. by apply (anti_symm String.le).
Qed.

(** "Not less" for the comparator: the first entry is selected and the second
    is not, or they are alike and the names are in order. *)
Lemma modules_less_false (ma mb : string * bool) :
  gui.modules_less mb ma = false
  ↔ (ma.2 = true ∧ mb.2 = false) ∨ (ma.2 = mb.2 ∧ String.le ma.1 mb.1).
Proof.
  destruct ma as [na ba], mb as [nb bb]. unfold gui.modules_less. simpl.
  rewrite <- string_ltb_false.
  destruct ba, bb; simpl; intuition congruence.
Qed.

Lemma modules_less_asym (ma mb : string * bool) :
  gui.modules_less ma mb = true → gui.modules_less mb ma = false.
Proof.
  destruct ma as [na ba], mb as [nb bb]. unfold gui.modules_less. simpl.
  destruct ba, bb; simpl; try done;
    intros [Hle _]%string_ltb_true; by apply string_ltb_false.
Qed.

Lemma modules_less_trans (x y z : string * bool) :
  gui.modules_less y x = false → gui.modules_less z y = false →
  gui.modules_less z x = false.
Proof.
  rewrite !modules_less_false.
  intros [[? ?] | [? Hxy]] [[? ?] | [? Hyz]]; try (left; split; congruence).
  right. split; [congruence | by etrans].
Qed.

Lemma modules_less_antisym (ma mb : string * bool) :
  gui.modules_less mb ma = false → gui.modules_less ma mb = false → ma = mb.
Proof.
  rewrite !modules_less_false. destruct ma as [na ba], mb as [nb bb]. simpl.
  intros [[-> ->] | [-> Hab]] [[? ?] | [? Hba]]; try congruence.
  f_equal. by apply (anti_symm String.le).
Qed.

#[local] Instance modules_le_antisymm :
  AntiSymm (=) (λ a b : string * bool, gui.modules_less b a = false).
Proof. intros a b. apply modules_less_antisym. Qed.

(** X5. The lambda handed to [std::sort] is a strict order that decides
    every pair of distinct entries, as [std::sort] requires of a comparator:
    no entry is less than itself, "less" is transitive, and two entries
    neither of which is less than the other are equal. *)
Theorem modules_less_strict_order (ma mb mc : string * bool) :
  gui.modules_less ma ma = false
  ∧ (gui.modules_less ma mb = true → gui.modules_less mb mc = true →
     gui.modules_less ma mc = true)
  ∧ (gui.modules_less ma mb = false → gui.modules_less mb ma = false → ma = mb).
Proof.
  split; [|split].
  - apply modules_less_false. right. split; [done | reflexivity].
  - intros Hab Hbc.
    destruct (gui.modules_less ma mc) eqn:Hac; [done|].
    pose proof (modules_less_asym _ _ Hab) as Hba.
    pose proof (modules_less_asym _ _ Hbc) as Hcb.
    pose proof (modules_less_trans _ _ _ Hac Hba) as Hbc'.
    congruence.
  - intros Hab Hba. by apply modules_less_antisym.
Qed.

(** X6. For this comparator the outcome of [std::sort] does not depend on
    the sorting algorithm: every rearrangement of a list in which no entry is
    less than an earlier one is the list [std_sort] computes. *)
Theorem std_sort_modules_unique (l l' : list (string * bool)) :
  l' ≡ₚ l →
  sorted_by gui.modules_less l' →
  l' = std_sort gui.modules_less l.
Proof.
  intros Hperm Hsorted.
  apply (StronglySorted_unique (λ a b, gui.modules_less b a = false)).
  - by apply sorted_by_StronglySorted.
  - apply std_sort_sorted; [apply modules_less_asym | apply modules_less_trans].
  - by rewrite std_sort_perm.
Qed.

(** ** [get_modules_list] *)

Section GetModulesList.

Context `{paths : gui.Paths}.

(** The entries the scan keeps and the names it gives them. *)
Definition suprx_stems (entries : list gui.path) : list string :=
  gui.filename_stem <$> filter (λ p, gui.extension p = ".suprx") entries.

Lemma foldl_push_suprx (entries : list gui.path) (modules : list (string * bool)) :
  foldl gui.push_suprx modules entries
  = modules ++ ((λ name, (name, false)) <$> suprx_stems entries).
Proof.
  unfold suprx_stems. revert modules.
  induction entries as [|p entries IH]; intros modules; simpl.
  - by rewrite app_nil_r.
  - rewrite IH. unfold gui.push_suprx. rewrite filter_cons.
    destruct (decide (gui.extension p = ".suprx")) as [Hext|Hext].
    + rewrite bool_decide_eq_true_2 by done. simpl. by rewrite <- app_assoc.
    + by rewrite bool_decide_eq_false_2.
Qed.

Lemma mark_modules_names (lle : list string) (modules : list (string * bool)) :
  (gui.mark_modules lle modules).*1 = modules.*1.
Proof.
  unfold gui.mark_modules. rewrite <- list_fmap_compose. by apply list_fmap_ext.
Qed.

Lemma mark_modules_agree (lle : list string) (modules : list (string * bool)) :
  gui.marks_agree (gui.mark_modules lle modules) lle.
Proof.
  intros m Hm. apply list_elem_of_fmap in Hm as (m0 & -> & _). simpl.
  apply find_ne_end_true.
Qed.

(** What [get_modules_list] leaves in [gui.modules], before sorting. *)
Definition scanned (fs : gui.FileSystem) (host : gui.HostState) : list (string * bool) :=
  let modules_path :=
    gui.path_div (gui.path_of_string (gui.pref_path host)) "vs0/sys/external/" in
  if gui.fs_exists fs modules_path && negb (gui.fs_is_empty fs modules_path)
  then gui.mark_modules (gui.lle_modules (gui.cfg host))
         ((λ name, (name, false))
            <$> suprx_stems (gui.recursive_directory_iterator fs modules_path))
  else [].

Lemma get_modules_list_run (fs : gui.FileSystem) (gui0 : gui.GuiState)
    (host : gui.HostState) :
  gui.get_modules_list fs gui0 host
  = ({| gui.modules := std_sort gui.modules_less (scanned fs host) |}, host).
Proof.
  unfold gui.get_modules_list, scanned.
  destruct (_ && _); [|done]. by rewrite foldl_push_suprx.
Qed.

End GetModulesList.

Section GetModulesListProperties.

Context `{paths : gui.Paths}.

(** The directory [get_modules_list] scans. *)
Definition modules_dir (host : gui.HostState) : gui.path :=
  gui.path_div (gui.path_of_string (gui.pref_path host)) "vs0/sys/external/".

Lemma marks_agree_perm (l1 l2 : list (string * bool)) (lle : list string) :
  l1 ≡ₚ l2 → gui.marks_agree l1 lle → gui.marks_agree l2 lle.
Proof. intros Hperm Hagree m Hm. apply Hagree. by rewrite Hperm. Qed.

Lemma scanned_agree (fs : gui.FileSystem) (host : gui.HostState) :
  gui.marks_agree (scanned fs host) (gui.lle_modules (gui.cfg host)).
Proof.
  unfold scanned. destruct (_ && _).
  - apply mark_modules_agree.
  - intros m Hm. by apply elem_of_nil in Hm.
Qed.

(** X1. After [get_modules_list], whatever [gui.modules] held before, the
    flag of every entry says whether its name is in [host.cfg.lle_modules];
    the host state is as it was. *)
Theorem get_modules_list_marks (fs : gui.FileSystem) (gui0 : gui.GuiState)
    (host : gui.HostState) :
  gui.marks_agree (gui.modules (gui.get_modules_list fs gui0 host).1)
    (gui.lle_modules (gui.cfg host))
  ∧ (gui.get_modules_list fs gui0 host).2 = host.
Proof.
  rewrite get_modules_list_run. simpl. split; [|done].
  eapply marks_agree_perm; [symmetry; apply std_sort_perm | apply scanned_agree].
Qed.

(** X2. The names [get_modules_list] lists are the file names, extension
    removed, of the scanned entries whose extension is ".suprx", each as many
    times as the scan yields it, and nothing else; when the directory is
    missing or empty the list is empty. *)
Theorem get_modules_list_names (fs : gui.FileSystem) (gui0 : gui.GuiState)
    (host : gui.HostState) :
  (gui.modules (gui.get_modules_list fs gui0 host).1).*1
  ≡ₚ (if gui.fs_exists fs (modules_dir host)
         && negb (gui.fs_is_empty fs (modules_dir host))
      then suprx_stems (gui.recursive_directory_iterator fs (modules_dir host))
      else []).
Proof.
  rewrite get_modules_list_run. simpl. rewrite std_sort_perm.
  unfold scanned, modules_dir. destruct (_ && _); [|done].
  rewrite mark_modules_names, <- list_fmap_compose.
  by rewrite list_fmap_id.
Qed.

(** X3. [get_modules_list] leaves the selected entries before the others and,
    among entries alike in that, the names in ascending order. *)
Theorem get_modules_list_sorted (fs : gui.FileSystem) (gui0 : gui.GuiState)
    (host : gui.HostState) (i j : nat) (mi mj : string * bool) :
  i < j →
  gui.modules (gui.get_modules_list fs gui0 host).1 !! i = Some mi →
  gui.modules (gui.get_modules_list fs gui0 host).1 !! j = Some mj →
  (mi.2 = false → mj.2 = false) ∧ (mi.2 = mj.2 → String.le mi.1 mj.1).
Proof.
  rewrite get_modules_list_run. simpl. intros Hij Hi Hj.
  assert (Hs : sorted_by gui.modules_less (std_sort gui.modules_less (scanned fs host))).
  { apply sorted_by_StronglySorted, std_sort_sorted;
      [apply modules_less_asym | apply modules_less_trans]. }
  specialize (Hs i j mi mj Hij Hi Hj).
  apply modules_less_false in Hs as [[Hsel Hnot] | [Heq Hle]].
  - split; [congruence | congruence].
  - split; [congruence | done].
Qed.

Lemma find_ne_end_ext {A : Type} `{EqDecision A} (c1 c2 : list A) (value : A) :
  (value ∈ c1 ↔ value ∈ c2) → find_ne_end c1 value = find_ne_end c2 value.
Proof.
  intros Hiff.
  destruct (find_ne_end c1 value) eqn:H1, (find_ne_end c2 value) eqn:H2; try done.
  - apply find_ne_end_true in H1. apply find_ne_end_false in H2. tauto.
  - apply find_ne_end_false in H1. apply find_ne_end_true in H2. tauto.
Qed.

(** X4. The list [get_modules_list] builds does not depend on the order in
    which the directory iterator yields the entries, nor on the order or
    repetitions of [host.cfg.lle_modules], nor on what [gui.modules] held. *)
Theorem get_modules_list_scan_order (fs1 fs2 : gui.FileSystem)
    (gui1 gui2 : gui.GuiState) (host1 host2 : gui.HostState) :
  gui.pref_path host1 = gui.pref_path host2 →
  gui.fs_exists fs1 (modules_dir host1) = gui.fs_exists fs2 (modules_dir host1) →
  gui.fs_is_empty fs1 (modules_dir host1) = gui.fs_is_empty fs2 (modules_dir host1) →
  gui.recursive_directory_iterator fs1 (modules_dir host1)
    ≡ₚ gui.recursive_directory_iterator fs2 (modules_dir host1) →
  (∀ name, name ∈ gui.lle_modules (gui.cfg host1)
           ↔ name ∈ gui.lle_modules (gui.cfg host2)) →
  (gui.get_modules_list fs1 gui1 host1).1 = (gui.get_modules_list fs2 gui2 host2).1.
Proof.
  intros Hpref Hex Hem Hperm Hlle.
  rewrite !get_modules_list_run. simpl. f_equal.
  apply (StronglySorted_unique (λ a b, gui.modules_less b a = false));
    try (apply std_sort_sorted; [apply modules_less_asym | apply modules_less_trans]).
  rewrite !std_sort_perm. unfold scanned, modules_dir in *.
  rewrite <- Hpref, <- Hex, <- Hem. destruct (_ && _); [|done].
  unfold gui.mark_modules, suprx_stems. rewrite <- Hperm.
  apply Permutation_refl'. apply list_fmap_ext. intros k m _. simpl.
  f_equal. by apply find_ne_end_ext.
Qed.

End GetModulesListProperties.

(** ** The list box *)

(** [host.cfg.lle_modules] after a click on the entry named [name]. *)
Definition clicked_list (lle : list string) (name : string) : list string :=
  if bool_decide (std_find lle name ≠ length lle)
  then delete (std_find lle name) lle
  else lle ++ [name].

(** In the frame only the entry of index [k] is clicked. *)
Definition only_click (ui : gui.ListBoxUi) (k : nat) : Prop :=
  ∀ i label selected, (gui.Selectable ui i label selected).1 = bool_decide (i = k).

(** [ImGui::Selectable] flips the flag it is given exactly when it returns
    [true]. *)
Definition selectable_flips (ui : gui.ListBoxUi) : Prop :=
  ∀ i label selected,
    gui.Selectable ui i label selected = (true, negb selected)
    ∨ gui.Selectable ui i label selected = (false, selected).

Lemma occurrences_cons (name x : string) (l : list string) :
  occurrences name (x :: l)
  = (if decide (x = name) then 1 else 0) + occurrences name l.
Proof.
  unfold occurrences. rewrite filter_cons. by destruct (decide (x = name)).
Qed.

Lemma occurrences_app (name : string) (l1 l2 : list string) :
  occurrences name (l1 ++ l2) = occurrences name l1 + occurrences name l2.
Proof. unfold occurrences. by rewrite filter_app, length_app. Qed.

Lemma occurrences_elem_of (name : string) (l : list string) :
  name ∈ l ↔ 0 < occurrences name l.
Proof.
  induction l as [|x l IH].
  - rewrite elem_of_nil. unfold occurrences. simpl. lia.
  - rewrite elem_of_cons, occurrences_cons, IH.
    destruct (decide (x = name)) as [->|Hne]; [intuition lia|].
    split; [intros [->|?]; [done | lia] | intros ?; right; lia].
Qed.

Lemma occurrences_NoDup (l : list string) :
  NoDup l ↔ ∀ name, occurrences name l ≤ 1.
Proof.
  induction l as [|x l IH].
  - split; [intros _ name; unfold occurrences; simpl; lia | constructor].
  - rewrite NoDup_cons, IH. split.
    + intros [Hx Hl] name. rewrite occurrences_cons.
      destruct (decide (x = name)) as [->|Hne]; [|apply Hl].
      apply (not_iff_compat (occurrences_elem_of name l)) in Hx. lia.
    + intros Hall. split.
      * rewrite occurrences_elem_of. specialize (Hall x).
        rewrite occurrences_cons in Hall.
        destruct (decide (x = x)); [lia | done].
      * intros name. specialize (Hall name). rewrite occurrences_cons in Hall. lia.
Qed.

Lemma occurrences_delete_find (name name' : string) (l : list string) :
  name ∈ l →
  (if decide (name' = name) then 1 else 0)
  + occurrences name' (delete (std_find l name) l)
  = occurrences name' l.
Proof.
  induction l as [|x l IH]; intros Hin; [by apply elem_of_nil in Hin|].
  simpl. destruct (decide (x = name)) as [->|Hne]; simpl.
  - rewrite occurrences_cons.
    destruct (decide (name' = name)), (decide (name = name')); congruence || lia.
  - apply elem_of_cons in Hin as [->|Hin]; [done|].
    rewrite !occurrences_cons, <- (IH Hin). lia.
Qed.

(** A click changes how often the clicked name is listed by exactly one, up
    from none, down otherwise; other names are listed as often as before. *)
Lemma occurrences_clicked (lle : list string) (name name' : string) :
  occurrences name' (clicked_list lle name)
  = if decide (name' = name)
    then (if decide (occurrences name lle = 0) then 1 else occurrences name lle - 1)
    else occurrences name' lle.
Proof.
  unfold clicked_list, gui.marks_agree.
  destruct (bool_decide _) eqn:Hfound.
  - apply (find_ne_end_true lle name) in Hfound.
    pose proof (occurrences_delete_find name name' lle Hfound) as Hdel.
    apply occurrences_elem_of in Hfound.
    destruct (decide (name' = name)) as [->|?]; [|lia].
    destruct (decide (occurrences name lle = 0)); lia.
  - apply (find_ne_end_false lle name) in Hfound.
    apply (not_iff_compat (occurrences_elem_of name lle)) in Hfound.
    rewrite occurrences_app, occurrences_cons. unfold occurrences at 2. simpl.
    destruct (decide (name' = name)), (decide (name = name'));
      try congruence; [|lia].
    subst name'. destruct (decide (occurrences name lle = 0)); lia.
Qed.

Lemma list_box_names (ui : gui.ListBoxUi) (k : nat) (modules : list (string * bool))
    (lle : list string) :
  (gui.list_box ui k modules lle).1.*1 = modules.*1.
Proof.
  revert k lle. induction modules as [|m rest IH]; intros k lle; simpl; [done|].
  destruct (gui.PassFilter ui m.1); simpl.
  - destruct (gui.Selectable ui k m.1 m.2) as [clicked second].
    match goal with |- context [gui.list_box ui (S k) rest ?l] =>
      specialize (IH (S k) l); destruct (gui.list_box ui (S k) rest l) end.
    simpl. f_equal. exact IH.
  - specialize (IH (S k) lle). destruct (gui.list_box ui (S k) rest lle).
    simpl. f_equal. exact IH.
Qed.

(** One turn of the loop, with the click written as [clicked_list]. *)
Lemma list_box_cons (ui : gui.ListBoxUi) (k : nat) (m : string * bool)
    (rest : list (string * bool)) (lle : list string) :
  gui.list_box ui k (m :: rest) lle
  = if gui.PassFilter ui m.1 then
      let answer := gui.Selectable ui k m.1 m.2 in
      let lle1 := if answer.1 then clicked_list lle m.1 else lle in
      ((m.1, answer.2) :: (gui.list_box ui (S k) rest lle1).1,
       (gui.list_box ui (S k) rest lle1).2)
    else (m :: (gui.list_box ui (S k) rest lle).1,
          (gui.list_box ui (S k) rest lle).2).
Proof.
  simpl. unfold clicked_list. destruct (gui.PassFilter ui m.1); simpl.
  - destruct (gui.Selectable ui k m.1 m.2) as [clicked second]. simpl.
    by destruct (gui.list_box ui (S k) rest _).
  - by destruct (gui.list_box ui (S k) rest lle).
Qed.

Lemma modules_list_box_run (ui : gui.ListBoxUi) (g : gui.GuiState) (host : gui.HostState) :
  gui.modules_list_box ui g host
  = ({| gui.modules :=
          (gui.list_box ui 0 (gui.modules g) (gui.lle_modules (gui.cfg host))).1 |},
     {| gui.cfg :=
          {| gui.lle_modules :=
               (gui.list_box ui 0 (gui.modules g) (gui.lle_modules (gui.cfg host))).2 |};
        gui.pref_path := gui.pref_path host |}).
Proof. unfold gui.modules_list_box. by destruct (gui.list_box ui 0 _ _). Qed.

(** Entries that are filtered out or not clicked leave the list alone. *)
Lemma list_box_no_click (ui : gui.ListBoxUi) (k : nat) (modules : list (string * bool))
    (lle : list string) :
  (∀ i m, modules !! i = Some m → gui.PassFilter ui m.1 = true →
          (gui.Selectable ui (k + i) m.1 m.2).1 = false) →
  (gui.list_box ui k modules lle).2 = lle.
Proof.
  revert k lle. induction modules as [|m rest IH]; intros k lle Hno; [done|].
  rewrite list_box_cons.
  assert (Hrest : ∀ i m', rest !! i = Some m' → gui.PassFilter ui m'.1 = true →
                          (gui.Selectable ui (S k + i) m'.1 m'.2).1 = false).
  { intros i m' Hi Hp. replace (S k + i) with (k + S i) by lia. by apply Hno. }
  destruct (gui.PassFilter ui m.1) eqn:Hpass; simpl; [|by apply IH].
  specialize (Hno 0 m eq_refl Hpass). rewrite Nat.add_0_r in Hno.
  rewrite Hno. by apply IH.
Qed.

Lemma list_box_occurrences (ui : gui.ListBoxUi) (k : nat)
    (modules : list (string * bool)) (lle : list string) (name : string) :
  (∀ i m, modules !! i = Some m → m.1 = name → gui.PassFilter ui name = true →
          (gui.Selectable ui (k + i) name m.2).1 = false) →
  occurrences name (gui.list_box ui k modules lle).2 = occurrences name lle.
Proof.
  revert k lle. induction modules as [|m rest IH]; intros k lle Hno; [done|].
  rewrite list_box_cons.
  assert (Hrest : ∀ i m', rest !! i = Some m' → m'.1 = name →
                          gui.PassFilter ui name = true →
                          (gui.Selectable ui (S k + i) name m'.2).1 = false).
  { intros i m' Hi Hn Hp. replace (S k + i) with (k + S i) by lia. by apply Hno. }
  destruct (gui.PassFilter ui m.1) eqn:Hpass; simpl; [|by apply IH].
  rewrite (IH _ _ Hrest).
  destruct (gui.Selectable ui k m.1 m.2).1 eqn:Hclick; [|done].
  rewrite occurrences_clicked.
  destruct (decide (name = m.1)) as [->|Hne]; [|done].
  specialize (Hno 0 m eq_refl eq_refl Hpass). rewrite Nat.add_0_r in Hno. congruence.
Qed.

Lemma list_box_one_click (ui : gui.ListBoxUi) (k0 k : nat)
    (modules : list (string * bool)) (lle : list string) (m : string * bool) :
  only_click ui (k0 + k) →
  modules !! k = Some m →
  gui.PassFilter ui m.1 = true →
  (gui.list_box ui k0 modules lle).2 = clicked_list lle m.1.
Proof.
  revert k0 k lle. induction modules as [|m0 rest IH]; intros k0 k lle Honly Hk Hpass;
    [done|].
  rewrite list_box_cons. destruct k as [|k]; simpl in Hk.
  - injection Hk as ->. rewrite Hpass. simpl.
    rewrite Honly, Nat.add_0_r, bool_decide_eq_true_2 by done.
    apply list_box_no_click. intros i m' _ _.
    rewrite Honly. apply bool_decide_eq_false_2. lia.
  - assert (Hhead : (gui.Selectable ui k0 m0.1 m0.2).1 = false).
    { rewrite Honly. apply bool_decide_eq_false_2. lia. }
    replace (k0 + S k) with (S k0 + k) in Honly by lia.
    destruct (gui.PassFilter ui m0.1); simpl; [rewrite Hhead|]; by eapply IH.
Qed.

Lemma list_box_occurrences_absent (ui : gui.ListBoxUi) (k : nat)
    (modules : list (string * bool)) (lle : list string) (name : string) :
  name ∉ modules.*1 →
  occurrences name (gui.list_box ui k modules lle).2 = occurrences name lle.
Proof.
  intros Habsent. apply list_box_occurrences. intros i m Hi Hname _.
  destruct Habsent. rewrite <- Hname.
  apply list_elem_of_fmap. exists m. split; [done | by eapply list_elem_of_lookup_2].
Qed.

Lemma clicked_list_NoDup (lle : list string) (name : string) :
  NoDup lle → NoDup (clicked_list lle name).
Proof.
  rewrite !occurrences_NoDup. intros Hle name'. rewrite occurrences_clicked.
  pose proof (Hle name). pose proof (Hle name').
  repeat case_decide; lia.
Qed.

Lemma clicked_list_elem_other (lle : list string) (name name' : string) :
  name' ≠ name → name' ∈ clicked_list lle name ↔ name' ∈ lle.
Proof.
  intros Hne. rewrite !occurrences_elem_of, occurrences_clicked.
  by rewrite decide_False.
Qed.

Lemma clicked_list_elem_same (lle : list string) (name : string) :
  NoDup lle → name ∈ clicked_list lle name ↔ name ∉ lle.
Proof.
  rewrite occurrences_NoDup. intros Hle. pose proof (Hle name).
  rewrite !occurrences_elem_of, occurrences_clicked, decide_True by done.
  case_decide; lia.
Qed.

Lemma list_box_invariant (ui : gui.ListBoxUi) (k : nat)
    (modules : list (string * bool)) (lle : list string) :
  selectable_flips ui →
  NoDup modules.*1 →
  NoDup lle →
  gui.marks_agree modules lle →
  gui.marks_agree (gui.list_box ui k modules lle).1 (gui.list_box ui k modules lle).2
  ∧ NoDup (gui.list_box ui k modules lle).2.
Proof.
  intros Hflips. revert k lle.
  induction modules as [|m rest IH]; intros k lle Hnames Hlle Hagree.
  { simpl. split; [intros m Hm; by apply elem_of_nil in Hm | done]. }
  rewrite fmap_cons in Hnames. apply NoDup_cons in Hnames as [Hfresh Hnames].
  assert (Hhead : m.2 = true ↔ m.1 ∈ lle) by (apply Hagree; left).
  assert (Hrest : gui.marks_agree rest lle) by (intros m' Hm'; apply Hagree; by right).
  (* what the head entry leaves: its flag and the list *)
  assert (Hstep : ∃ second lle1,
    gui.list_box ui k (m :: rest) lle
    = ((m.1, second) :: (gui.list_box ui (S k) rest lle1).1,
       (gui.list_box ui (S k) rest lle1).2)
    ∧ NoDup lle1 ∧ gui.marks_agree rest lle1 ∧ (second = true ↔ m.1 ∈ lle1)).
  { rewrite list_box_cons. destruct (gui.PassFilter ui m.1).
    - destruct (Hflips k m.1 m.2) as [-> | ->]; simpl.
      + exists (negb m.2), (clicked_list lle m.1). split; [done|].
        split; [by apply clicked_list_NoDup|]. split.
        * intros m' Hm'. rewrite clicked_list_elem_other; [by apply Hrest|].
          intros Heq. destruct Hfresh. rewrite <- Heq.
          apply list_elem_of_fmap. by exists m'.
        * rewrite clicked_list_elem_same by done. rewrite <- Hhead.
          destruct m.2; simpl; intuition congruence.
      + exists m.2, lle. by destruct m.
    - exists m.2, lle. by destruct m. }
  destruct Hstep as (second & lle1 & -> & Hlle1 & Hrest1 & Hhead1). simpl.
  destruct (IH (S k) lle1 Hnames Hlle1 Hrest1) as [Hagree' Hnodup'].
  split; [|done]. intros m' [->|Hm']%elem_of_cons; [|by apply Hagree'].
  simpl. rewrite Hhead1, !occurrences_elem_of.
  by rewrite list_box_occurrences_absent.
Qed.

Lemma std_find_app_absent (l : list string) (name : string) :
  name ∉ l → std_find (l ++ [name]) name = length l.
Proof.
  induction l as [|x l IH]; simpl; intros Habsent.
  - by rewrite decide_True.
  - apply not_elem_of_cons in Habsent as [Hne Habsent].
    rewrite decide_False by done. by rewrite IH.
Qed.

(** Two clicks on one name: an unlisted name leaves the list as it was; a
    listed one, in a list without repetition, ends up last. *)
Lemma clicked_list_twice (lle : list string) (name : string) :
  (name ∉ lle → clicked_list (clicked_list lle name) name = lle)
  ∧ (NoDup lle → clicked_list (clicked_list lle name) name ≡ₚ lle).
Proof.
  assert (Habsent : name ∉ lle → clicked_list (clicked_list lle name) name = lle).
  { intros Hname. unfold clicked_list at 2.
    rewrite bool_decide_eq_false_2 by (intros Hne; by apply std_find_end in Hname).
    unfold clicked_list. rewrite std_find_app_absent by done.
    rewrite bool_decide_eq_true_2 by (rewrite length_app; simpl; lia).
    induction lle as [|x lle IH]; simpl; [done|]. f_equal. apply IH.
    apply not_elem_of_cons in Hname. tauto. }
  split; [exact Habsent|]. intros Hnodup.
  destruct (decide (name ∈ lle)) as [Hin|Hout]; [|by rewrite Habsent].
  assert (Hgone : name ∉ clicked_list lle name).
  { rewrite clicked_list_elem_same by done. tauto. }
  unfold clicked_list at 1.
  rewrite bool_decide_eq_false_2 by (intros Hne; by apply std_find_end in Hgone).
  unfold clicked_list.
  rewrite bool_decide_eq_true_2 by (by apply (find_ne_end_true lle name), bool_decide_eq_true in Hin).
  rewrite <- Permutation_cons_append. symmetry.
  apply delete_Permutation. by apply std_find_lookup.
Qed.

(** Two clicks on a listed name: listed once, it ends up last; listed more
    often, two of its occurrences are gone. *)
Lemma clicked_list_twice_listed (lle : list string) (name : string) :
  (occurrences name lle = 1 →
   clicked_list (clicked_list lle name) name
   = delete (std_find lle name) lle ++ [name])
  ∧ (1 < occurrences name lle →
     occurrences name (clicked_list (clicked_list lle name) name) + 2
     = occurrences name lle).
Proof.
  split.
  - intros Hone.
    assert (Hin : name ∈ lle) by (apply occurrences_elem_of; lia).
    assert (Hfirst : clicked_list lle name = delete (std_find lle name) lle).
    { unfold clicked_list. rewrite bool_decide_eq_true_2; [done|].
      by apply (find_ne_end_true lle name), bool_decide_eq_true in Hin. }
    assert (Hgone : name ∉ clicked_list lle name).
    { rewrite occurrences_elem_of, occurrences_clicked, decide_True by done.
      rewrite Hone. simpl. lia. }
    unfold clicked_list at 1.
    rewrite bool_decide_eq_false_2 by (intros Hne; by apply std_find_end in Hgone).
    by rewrite Hfirst.
  - intros Hmore.
    pose proof (occurrences_clicked lle name name) as Hfirst.
    pose proof (occurrences_clicked (clicked_list lle name) name name) as Hsecond.
    rewrite decide_True in Hfirst, Hsecond by done.
    destruct (decide (occurrences name lle = 0)); [lia|].
    destruct (decide (occurrences name (clicked_list lle name) = 0)); lia.
Qed.

(** X7. A frame of the list box in which no entry that passes the search bar
    is clicked leaves the host state, and so [host.cfg.lle_modules], exactly
    as it was. *)
Theorem modules_list_box_no_click (ui : gui.ListBoxUi) (g : gui.GuiState)
    (host : gui.HostState) :
  (∀ i m, gui.modules g !! i = Some m → gui.PassFilter ui m.1 = true →
          (gui.Selectable ui i m.1 m.2).1 = false) →
  (gui.modules_list_box ui g host).2 = host.
Proof.
  intros Hno. rewrite modules_list_box_run. simpl.
  rewrite list_box_no_click by exact Hno. by destruct host as [[lle] pref].
Qed.

(** X8. The list box changes how often a name is listed only through a click
    on an entry of that name that passes the search bar: a name the search
    bar hides, a name that is no entry of [gui.modules], and a name whose
    entries are not clicked, are each listed exactly as often as before. *)
Theorem modules_list_box_untouched (ui : gui.ListBoxUi) (g : gui.GuiState)
    (host : gui.HostState) (name : string) :
  gui.PassFilter ui name = false
  ∨ name ∉ (gui.modules g).*1
  ∨ (∀ i m, gui.modules g !! i = Some m → m.1 = name →
            (gui.Selectable ui i name m.2).1 = false) →
  occurrences name (gui.lle_modules (gui.cfg (gui.modules_list_box ui g host).2))
  = occurrences name (gui.lle_modules (gui.cfg host)).
Proof.
  intros Hcase. rewrite modules_list_box_run. simpl.
  destruct Hcase as [Hhidden | [Habsent | Hunclicked]].
  - apply list_box_occurrences. intros i m _ _ Hpass. congruence.
  - by apply list_box_occurrences_absent.
  - apply list_box_occurrences. intros i m Hi Hname _. by apply Hunclicked.
Qed.

(** X9. A frame in which one entry, shown by the search bar, is clicked: when
    its name is not listed the name is appended; when it is listed its first
    occurrence is erased. So the name is listed once more than before if it
    was not listed and once less if it was, every other name as often as
    before; a name listed more than once is still listed after the click. *)
Theorem modules_list_box_click (ui : gui.ListBoxUi) (g : gui.GuiState)
    (host : gui.HostState) (k : nat) (m : string * bool) :
  only_click ui k →
  gui.modules g !! k = Some m →
  gui.PassFilter ui m.1 = true →
  let lle := gui.lle_modules (gui.cfg host) in
  let lle' := gui.lle_modules (gui.cfg (gui.modules_list_box ui g host).2) in
  lle' = clicked_list lle m.1
  ∧ occurrences m.1 lle'
    = (if decide (occurrences m.1 lle = 0) then 1 else occurrences m.1 lle - 1)
  ∧ (∀ name, name ≠ m.1 → occurrences name lle' = occurrences name lle)
  ∧ (1 < occurrences m.1 lle → m.1 ∈ lle').
Proof.
  intros Honly Hk Hpass lle lle'.
  assert (Hlle : lle' = clicked_list lle m.1).
  { unfold lle'. rewrite modules_list_box_run. simpl.
    by apply (list_box_one_click ui 0 k). }
  split; [exact Hlle|]. rewrite Hlle. split; [|split].
  - by rewrite occurrences_clicked, decide_True.
  - intros name Hne. by rewrite occurrences_clicked, decide_False.
  - intros Htwice. rewrite occurrences_elem_of, occurrences_clicked, decide_True by done.
    case_decide; lia.
Qed.

(** X10. Clicking the same entry, shown by the search bar, in two successive
    frames. When its name was not listed, [host.cfg.lle_modules] is again
    exactly the list it was. When the name was listed once, the list is the
    old one with that name moved to the end; so a list without repetition
    holds the same names as before. When the name was listed more than once,
    two of its occurrences are gone. *)
Theorem modules_list_box_click_twice (ui1 ui2 : gui.ListBoxUi) (g : gui.GuiState)
    (host : gui.HostState) (k : nat) (m : string * bool) :
  only_click ui1 k → only_click ui2 k →
  gui.modules g !! k = Some m →
  gui.PassFilter ui1 m.1 = true → gui.PassFilter ui2 m.1 = true →
  let lle := gui.lle_modules (gui.cfg host) in
  let frame1 := gui.modules_list_box ui1 g host in
  let frame2 := gui.modules_list_box ui2 frame1.1 frame1.2 in
  let lle2 := gui.lle_modules (gui.cfg frame2.2) in
  (m.1 ∉ lle → lle2 = lle)
  ∧ (occurrences m.1 lle = 1 → lle2 = delete (std_find lle m.1) lle ++ [m.1])
  ∧ (NoDup lle → lle2 ≡ₚ lle)
  ∧ (1 < occurrences m.1 lle → occurrences m.1 lle2 + 2 = occurrences m.1 lle).
Proof.
  intros Honly1 Honly2 Hk Hpass1 Hpass2 lle frame1 frame2 lle2.
  assert (Hk1 : ∃ m1, gui.modules frame1.1 !! k = Some m1 ∧ m1.1 = m.1).
  { unfold frame1. rewrite modules_list_box_run. simpl.
    pose proof (list_box_names ui1 0 (gui.modules g) lle) as Hnames.
    apply (f_equal (λ l, l !! k)) in Hnames. rewrite !list_lookup_fmap, Hk in Hnames.
    simpl in Hnames. fold lle.
    destruct ((gui.list_box ui1 0 (gui.modules g) lle).1 !! k) as [m1|]; [|done].
    exists m1. split; [done|]. simpl in Hnames. congruence. }
  destruct Hk1 as (m1 & Hk1 & Hname).
  assert (Hlle2 : lle2 = clicked_list (clicked_list lle m.1) m.1).
  { unfold lle2, frame2. rewrite modules_list_box_run. simpl.
    rewrite (list_box_one_click ui2 0 k _ _ m1) by (done || by rewrite Hname).
    rewrite Hname. f_equal.
    unfold frame1. rewrite modules_list_box_run. simpl.
    by apply (list_box_one_click ui1 0 k). }
  rewrite Hlle2.
  split; [apply clicked_list_twice|].
  split; [apply clicked_list_twice_listed|].
  split; [apply clicked_list_twice | apply clicked_list_twice_listed].
Qed.

(** X11. If every flag agrees with [host.cfg.lle_modules], no name occurs
    twice in [gui.modules] or in the list, and [ImGui::Selectable] flips the
    flag exactly when it reports a click, then after a frame of the list box,
    whatever is clicked or hidden, the flags agree with the list again and
    the list still has no repetition. *)
Theorem modules_list_box_invariant (ui : gui.ListBoxUi) (g : gui.GuiState)
    (host : gui.HostState) :
  selectable_flips ui →
  NoDup (gui.modules g).*1 →
  NoDup (gui.lle_modules (gui.cfg host)) →
  gui.marks_agree (gui.modules g) (gui.lle_modules (gui.cfg host)) →
  gui.marks_agree (gui.modules (gui.modules_list_box ui g host).1)
    (gui.lle_modules (gui.cfg (gui.modules_list_box ui g host).2))
  ∧ NoDup (gui.lle_modules (gui.cfg (gui.modules_list_box ui g host).2))
  ∧ NoDup (gui.modules (gui.modules_list_box ui g host).1).*1.
Proof.
  intros Hflips Hnames Hlle Hagree. rewrite modules_list_box_run. simpl.
  destruct (list_box_invariant ui 0 _ _ Hflips Hnames Hlle Hagree) as [Hagree' Hlle'].
  split; [exact Hagree'|]. split; [exact Hlle'|]. by rewrite list_box_names.
Qed.

(** X12. The list box never adds, drops, renames or reorders the entries of
    [gui.modules], and never touches [host.pref_path]. *)
Theorem modules_list_box_names (ui : gui.ListBoxUi) (g : gui.GuiState)
    (host : gui.HostState) :
  (gui.modules (gui.modules_list_box ui g host).1).*1 = (gui.modules g).*1
  ∧ gui.pref_path (gui.modules_list_box ui g host).2 = gui.pref_path host.
Proof.
  rewrite modules_list_box_run. simpl. split; [apply list_box_names | done].
Qed.

(** * Further properties of [is_lle_module] *)

(** X13. The mixed mode is the union of the two exclusive ones: with a mode
    that is neither AUTOMATIC nor MANUAL, [is_lle_module] returns [true]
    exactly when it does so in AUTOMATIC mode or in MANUAL mode with the same
    user list, for every module, with or without paths. *)
Theorem is_lle_module_mixed_is_or `{ids : SysmoduleIds}
    (sysmodule_paths : SceSysmoduleModuleId → list string)
    (module_id : SceSysmoduleModuleId) (emuenv : EmuEnvState) :
  mode_of emuenv ≠ AUTOMATIC →
  mode_of emuenv ≠ MANUAL →
  result (is_lle_module sysmodule_paths module_id) emuenv
  = result (is_lle_module sysmodule_paths module_id)
      (emuenv_of AUTOMATIC (user_list_of emuenv))
    || result (is_lle_module sysmodule_paths module_id)
         (emuenv_of MANUAL (user_list_of emuenv)).
Proof.
  intros Hna Hnm. apply Bool.eq_true_iff_eq.
  rewrite Bool.orb_true_iff, !is_lle_module_result.
  unfold mode_of, user_list_of in *. simpl.
  intuition congruence.
Qed.

(** X14. [is_lle_module] uses the registry's path list of a module only as a
    set: two registries whose lists for the module hold the same paths, in
    any order and any number of times, give the same answer. *)
Theorem is_lle_module_paths_as_set `{ids : SysmoduleIds}
    (paths1 paths2 : SceSysmoduleModuleId → list string)
    (module_id : SceSysmoduleModuleId) (emuenv : EmuEnvState) :
  (∀ path, path ∈ paths1 module_id ↔ path ∈ paths2 module_id) →
  result (is_lle_module paths1 module_id) emuenv
  = result (is_lle_module paths2 module_id) emuenv.
Proof.
  intros Hsame.
  assert (Hempty : paths1 module_id ≠ [] ↔ paths2 module_id ≠ []).
  { destruct (paths1 module_id) as [|p1 l1] eqn:H1, (paths2 module_id) as [|p2 l2] eqn:H2;
      try done.
    - specialize (Hsame p2). rewrite elem_of_nil in Hsame.
      destruct (proj2 Hsame). by left.
    - specialize (Hsame p1). rewrite elem_of_nil in Hsame.
      destruct (proj1 Hsame). by left. }
  assert (Hlisted : some_path_listed (paths1 module_id) (user_list_of emuenv)
                    ↔ some_path_listed (paths2 module_id) (user_list_of emuenv)).
  { unfold some_path_listed. split; intros (p & Hp & Hl); exists p;
      (split; [by apply Hsame | done]). }
  pose proof (is_lle_module_result paths1 module_id emuenv) as Hr1.
  pose proof (is_lle_module_result paths2 module_id emuenv) as Hr2.
  rewrite Hempty, Hlisted, <- Hr2 in Hr1.
  destruct (result (is_lle_module paths1 module_id) emuenv),
    (result (is_lle_module paths2 module_id) emuenv); try done.
  - symmetry. by apply Hr1.
  - by apply Hr1.
Qed.

(** * The further theorems at concrete inputs *)

(** The list [get_modules_list] builds for the sample directory and host. *)
Definition sample_gui : gui.GuiState :=
  {| gui.modules :=
       [("libface", true); ("libhttp", true); ("libatrac", false); ("libssl", false)] |}.

(** A frame in which every entry shown is clicked and the search bar hides
    "libhttp". *)
Definition sample_ui : gui.ListBoxUi := {|
  gui.PassFilter name := bool_decide (name ≠ "libhttp");
  gui.Selectable _ _ selected := (true, negb selected)
|}.

(** A frame without a click. *)
Definition idle_ui : gui.ListBoxUi := {|
  gui.PassFilter _ := true;
  gui.Selectable _ _ selected := (false, selected)
|}.

Example scenario_get_modules_list :
  gui.get_modules_list (gui.sample_fs gui.sample_entries)
    {| gui.modules := [("stale", true)] |} gui.sample_host
  = (sample_gui, gui.sample_host).
Proof. reflexivity. Qed.

Example scenario_click_listed :
  gui.modules_list_box (gui.click_only 1) sample_gui gui.sample_host
  = ({| gui.modules :=
          [("libface", true); ("libhttp", false); ("libatrac", false); ("libssl", false)] |},
     {| gui.cfg := {| gui.lle_modules := ["libface"] |}; gui.pref_path := "/vita/" |}).
Proof. reflexivity. Qed.

Example scenario_click_listed_twice :
  gui.modules_list_box (gui.click_only 1) sample_gui
    {| gui.cfg := {| gui.lle_modules := ["libhttp"; "libface"; "libhttp"] |};
       gui.pref_path := "/vita/" |}
  = ({| gui.modules :=
          [("libface", true); ("libhttp", false); ("libatrac", false); ("libssl", false)] |},
     {| gui.cfg := {| gui.lle_modules := ["libface"; "libhttp"] |};
        gui.pref_path := "/vita/" |}).
Proof. reflexivity. Qed.

Lemma click_only_only_click (k : nat) : only_click (gui.click_only k) k.
Proof. intros i label selected. simpl. by destruct (bool_decide (i = k)). Qed.

Lemma click_only_flips (k : nat) : selectable_flips (gui.click_only k).
Proof.
  intros i label selected. simpl. destruct (bool_decide (i = k)); [by left | by right].
Qed.

Lemma get_modules_list_sorted_witness : String.le "libface" "libhttp".
Proof.
  apply (proj2 (get_modules_list_sorted (paths:=gui.sample_paths)
                  (gui.sample_fs gui.sample_entries) {| gui.modules := [] |}
                  gui.sample_host 0 1 ("libface", true) ("libhttp", true)
                  (le_n 1) eq_refl eq_refl)).
  reflexivity.
Defined.

Lemma get_modules_list_scan_order_witness :
  (gui.get_modules_list (gui.sample_fs gui.sample_entries)
     {| gui.modules := [] |} gui.sample_host).1
  = (gui.get_modules_list (gui.sample_fs (reverse gui.sample_entries))
       {| gui.modules := [("stale", true)] |}
       {| gui.cfg := {| gui.lle_modules := ["libface"; "libhttp"; "libface"] |};
          gui.pref_path := "/vita/" |}).1.
Proof.
  apply (get_modules_list_scan_order (paths:=gui.sample_paths)).
  - reflexivity.
  - reflexivity.
  - reflexivity.
  - symmetry. apply reverse_Permutation.
  - intros name. simpl. rewrite !elem_of_cons, !elem_of_nil. tauto.
Defined.

Lemma modules_less_strict_order_witness :
  gui.modules_less ("a", true) ("a", false) = true.
Proof.
  apply (proj1 (proj2 (modules_less_strict_order ("a", true) ("b", true) ("a", false))));
    reflexivity.
Defined.

Lemma std_sort_modules_unique_witness :
  [("a", true); ("b", false)] = std_sort gui.modules_less [("b", false); ("a", true)].
Proof.
  apply std_sort_modules_unique.
  - apply Permutation_swap.
  - apply sorted_by_StronglySorted. repeat constructor.
Defined.

Lemma modules_list_box_no_click_witness :
  (gui.modules_list_box idle_ui sample_gui gui.sample_host).2 = gui.sample_host.
Proof. apply modules_list_box_no_click. intros i m _ _. reflexivity. Defined.

Lemma modules_list_box_untouched_witness :
  occurrences "libhttp"
    (gui.lle_modules (gui.cfg (gui.modules_list_box sample_ui sample_gui gui.sample_host).2))
  = occurrences "libhttp" (gui.lle_modules (gui.cfg gui.sample_host)).
Proof. apply modules_list_box_untouched. left. reflexivity. Defined.

Lemma modules_list_box_click_witness :
  gui.lle_modules
    (gui.cfg (gui.modules_list_box (gui.click_only 1) sample_gui gui.sample_host).2)
  = clicked_list ["libhttp"; "libface"] "libhttp".
Proof.
  apply (proj1 (modules_list_box_click (gui.click_only 1) sample_gui gui.sample_host
                  1 ("libhttp", true) (click_only_only_click 1) eq_refl eq_refl)).
Defined.

Lemma modules_list_box_click_twice_witness :
  gui.lle_modules
    (gui.cfg (gui.modules_list_box (gui.click_only 1)
                (gui.modules_list_box (gui.click_only 1) sample_gui gui.sample_host).1
                (gui.modules_list_box (gui.click_only 1) sample_gui gui.sample_host).2).2)
  = ["libface"; "libhttp"].
Proof.
  apply (proj1 (proj2 (modules_list_box_click_twice (gui.click_only 1) (gui.click_only 1)
                         sample_gui gui.sample_host 1 ("libhttp", true)
                         (click_only_only_click 1) (click_only_only_click 1)
                         eq_refl eq_refl eq_refl))).
  reflexivity.
Defined.

Lemma modules_list_box_invariant_witness :
  gui.marks_agree
    (gui.modules (gui.modules_list_box (gui.click_only 1) sample_gui gui.sample_host).1)
    (gui.lle_modules
       (gui.cfg (gui.modules_list_box (gui.click_only 1) sample_gui gui.sample_host).2))
  ∧ NoDup (gui.lle_modules
             (gui.cfg (gui.modules_list_box (gui.click_only 1) sample_gui gui.sample_host).2))
  ∧ NoDup (gui.modules
             (gui.modules_list_box (gui.click_only 1) sample_gui gui.sample_host).1).*1.
Proof.
  apply modules_list_box_invariant.
  - apply click_only_flips.
  - apply (bool_decide_unpack _). vm_compute. exact I.
  - apply (bool_decide_unpack _). vm_compute. exact I.
  - exact (mark_modules_agree ["libhttp"; "libface"]
             [("libface", false); ("libhttp", false); ("libatrac", false); ("libssl", false)]).
Defined.

Lemma is_lle_module_mixed_is_or_witness :
  result (is_lle_module (ids:=sample_ids) (paths_for sample_registry) 1)
    (emuenv_of MIXED ["vs0/sys/external/libfoo.suprx"])
  = result (is_lle_module (ids:=sample_ids) (paths_for sample_registry) 1)
      (emuenv_of AUTOMATIC ["vs0/sys/external/libfoo.suprx"])
    || result (is_lle_module (ids:=sample_ids) (paths_for sample_registry) 1)
         (emuenv_of MANUAL ["vs0/sys/external/libfoo.suprx"]).
Proof.
  apply (is_lle_module_mixed_is_or (ids:=sample_ids) (paths_for sample_registry) 1
           (emuenv_of MIXED ["vs0/sys/external/libfoo.suprx"])); by vm_compute.
Defined.

Lemma is_lle_module_paths_as_set_witness :
  result (is_lle_module (ids:=sample_ids) (λ _, ["a.suprx"; "b.suprx"]) 1)
    (emuenv_of MANUAL ["b.suprx"])
  = result (is_lle_module (ids:=sample_ids) (λ _, ["b.suprx"; "a.suprx"; "b.suprx"]) 1)
      (emuenv_of MANUAL ["b.suprx"]).
Proof.
  apply is_lle_module_paths_as_set.
  intros path. rewrite !elem_of_cons, !elem_of_nil. tauto.
Defined.
